(** * Compass.vue: pointing an arrow at Backyard Builder

    A shallow embedding of the script part of [src/components/Compass.vue]
    (and of the earlier revision of the same component), followed by the
    properties of its two sensor handlers.

    Numbers.  A JavaScript number is an IEEE-754 double.  Here a finite
    double is idealised as a real number and every arithmetic operation as
    the exact operation on reals, so rounding error is not represented;
    [NaN] is kept, because the handlers branch on it (truthiness, failed
    comparisons, the square root of a negative number).  Infinities and the
    sign of zero are not represented: the handlers divide only by the
    non-zero constants 2, 180 and [Math.PI].

    The idealisation hides one thing the handlers do: in doubles the
    haversine sum can round to a number above 1, whose complement has no
    square root.  Module [Double] states the same arithmetic on doubles,
    with the library functions as parameters, to show that case.

    The debug output ([dump], [print], [console.warn]) goes to a panel that
    no handler reads back; it is left out of the state. *)

From Stdlib Require Import Reals Lra ZArith String List Bool.
From Stdlib Require Import Machin DecimalString.
From Stdlib Require PrimFloat.
Import ListNotations.

Open Scope R_scope.

(** ** JavaScript values *)

Module Js.

Inductive number : Type :=
| NaN
| Fin (r : R).

(** The values an event field or a local variable of the script can hold. *)
Inductive value : Type :=
| Undefined
| Null
| Number (n : number).

Definition lift1 (f : R -> R) (a : number) : number :=
  match a with
  | Fin x => Fin (f x)
  | NaN => NaN
  end.

Definition lift2 (f : R -> R -> R) (a b : number) : number :=
  match a, b with
  | Fin x, Fin y => Fin (f x y)
  | _, _ => NaN
  end.

Definition add : number -> number -> number := lift2 Rplus.
Definition sub : number -> number -> number := lift2 Rminus.
Definition mul : number -> number -> number := lift2 Rmult.

(** [a / b]; a zero divisor is outside the idealisation (JavaScript gives
    an infinity there) and is mapped to [NaN]. *)
Definition div (a b : number) : number :=
  match a, b with
  | Fin x, Fin y => if Req_dec_T y 0 then NaN else Fin (x / y)
  | _, _ => NaN
  end.

(** Rounding towards zero, as the quotient of [%] is rounded. *)
Definition trunc (x : R) : R :=
  if Rle_dec 0 x then IZR (Int_part x) else - IZR (Int_part (- x)).

(** [a % b]: the remainder takes the sign of the dividend. *)
Definition rem (a b : number) : number :=
  match a, b with
  | Fin x, Fin y => if Req_dec_T y 0 then NaN else Fin (x - y * trunc (x / y))
  | _, _ => NaN
  end.

(** [a > b] and [a < b]: any comparison with [NaN] is false. *)
Definition gt (a b : number) : bool :=
  match a, b with
  | Fin x, Fin y => if Rlt_dec y x then true else false
  | _, _ => false
  end.

Definition lt (a b : number) : bool := gt b a.

Definition Math_PI : number := Fin PI.

Definition Math_sin : number -> number := lift1 sin.
Definition Math_cos : number -> number := lift1 cos.

(** [Math.sqrt]: [NaN] below zero. *)
Definition Math_sqrt (a : number) : number :=
  match a with
  | Fin x => if Rlt_dec x 0 then NaN else Fin (sqrt x)
  | NaN => NaN
  end.

(** The angle of the point [(x, y)], in (-PI, PI]. *)
Definition Ratan2 (y x : R) : R :=
  if Rlt_dec 0 x then atan (y / x)
  else if Rlt_dec x 0 then
    if Rle_dec 0 y then atan (y / x) + PI
    else atan (y / x) - PI
  else if Rlt_dec 0 y then PI / 2
  else if Rlt_dec y 0 then - (PI / 2)
  else 0.

Definition Math_atan2 : number -> number -> number := lift2 Ratan2.

(** [ToBoolean]: [undefined], [null], [NaN] and 0 are falsy. *)
Definition truthy (v : value) : bool :=
  match v with
  | Number (Fin x) => if Req_dec_T x 0 then false else true
  | _ => false
  end.

(** [ToNumber], applied when a value meets an arithmetic operator. *)
Definition to_number (v : value) : number :=
  match v with
  | Undefined => NaN
  | Null => Fin 0
  | Number n => n
  end.

(** [v === undefined], [v === null], [v !== null && v !== undefined]. *)
Definition is_undefined (v : value) : bool :=
  match v with
  | Undefined => true
  | _ => false
  end.

Definition is_null (v : value) : bool :=
  match v with
  | Null => true
  | _ => false
  end.

Definition not_nullish (v : value) : bool :=
  match v with
  | Number _ => true
  | _ => false
  end.

(** [ToBoolean] of a string or [undefined]: only a non-empty string is
    truthy. *)
Definition truthy_string (m : option string) : bool :=
  match m with
  | Some s => negb (String.eqb s "")
  | None => false
  end.

(** The decimal digits of a natural number. *)
Definition digits (n : N) : string :=
  NilEmpty.string_of_uint (N.to_uint n).

(** [x.toFixed(0)]: the integer nearest to [x], the larger one on a tie,
    in decimal; the sign is split off first.  (From 10^21 on JavaScript
    switches to exponent notation; a distance on Earth stays far below.) *)
Definition nearest (x : R) : Z := Int_part (x + / 2).

Definition toFixed0 (a : number) : string :=
  match a with
  | NaN => "NaN"
  | Fin x =>
      if Rlt_dec x 0
      then String.append "-" (digits (Z.to_N (nearest (- x))))
      else digits (Z.to_N (nearest x))
  end.

End Js.

(** ** The component *)

Module Compass.
Import Js.

(** The fields of a [deviceorientation] event that the handler reads. *)
Record DeviceOrientationEvent : Type := {
  webkitCompassHeading : value;
  absolute : bool;
  alpha : value
}.

(** The module-level variables and refs of the script, and whether
    [updateOrientation] is registered for [deviceorientation] on the
    window. *)
Record State : Type := {
  initialized : bool;
  _lat : option number;
  _lon : option number;
  name : string;
  distance : string;
  compassAvailable : bool;
  arrowRotation : number;
  deviceorientation : bool
}.

Definition initial : State := {|
  initialized := false;
  _lat := None;
  _lon := None;
  name := "Backyard Builder";
  distance := "";
  compassAvailable := false;
  arrowRotation := Fin 0;
  deviceorientation := false
|}.

(** Backyard Builder coordinates *)
Definition bbLat : number := Fin (37551447 / 1000000).
Definition bbLon : number := Fin (127047016 / 1000000).

Definition set_position (lat lon : number) (st : State) : State := {|
  initialized := initialized st;
  _lat := Some lat;
  _lon := Some lon;
  name := name st;
  distance := distance st;
  compassAvailable := compassAvailable st;
  arrowRotation := arrowRotation st;
  deviceorientation := deviceorientation st
|}.

Definition set_name (s : string) (st : State) : State := {|
  initialized := initialized st;
  _lat := _lat st;
  _lon := _lon st;
  name := s;
  distance := distance st;
  compassAvailable := compassAvailable st;
  arrowRotation := arrowRotation st;
  deviceorientation := deviceorientation st
|}.

Definition set_distance (s : string) (st : State) : State := {|
  initialized := initialized st;
  _lat := _lat st;
  _lon := _lon st;
  name := name st;
  distance := s;
  compassAvailable := compassAvailable st;
  arrowRotation := arrowRotation st;
  deviceorientation := deviceorientation st
|}.

Definition set_compassAvailable (b : bool) (st : State) : State := {|
  initialized := initialized st;
  _lat := _lat st;
  _lon := _lon st;
  name := name st;
  distance := distance st;
  compassAvailable := b;
  arrowRotation := arrowRotation st;
  deviceorientation := deviceorientation st
|}.

Definition set_arrowRotation (r : number) (st : State) : State := {|
  initialized := initialized st;
  _lat := _lat st;
  _lon := _lon st;
  name := name st;
  distance := distance st;
  compassAvailable := compassAvailable st;
  arrowRotation := r;
  deviceorientation := deviceorientation st
|}.

Definition set_initialized (b : bool) (st : State) : State := {|
  initialized := b;
  _lat := _lat st;
  _lon := _lon st;
  name := name st;
  distance := distance st;
  compassAvailable := compassAvailable st;
  arrowRotation := arrowRotation st;
  deviceorientation := deviceorientation st
|}.

(** [window.addEventListener('deviceorientation', updateOrientation)] and
    its [removeEventListener]: registering the same function twice keeps
    one registration. *)
Definition addEventListener (st : State) : State := {|
  initialized := initialized st;
  _lat := _lat st;
  _lon := _lon st;
  name := name st;
  distance := distance st;
  compassAvailable := compassAvailable st;
  arrowRotation := arrowRotation st;
  deviceorientation := true
|}.

Definition removeEventListener (st : State) : State := {|
  initialized := initialized st;
  _lat := _lat st;
  _lon := _lon st;
  name := name st;
  distance := distance st;
  compassAvailable := compassAvailable st;
  arrowRotation := arrowRotation st;
  deviceorientation := false
|}.

(** *** Error handling *)

Definition fail (msg : option string) (st : State) : State :=
  set_distance
    (if truthy_string msg
     then match msg with
          | Some m =>
              String.append m ". Try adding this app to your homescreen."
          | None => "Try adding this app to your homescreen."
          end
     else "Try adding this app to your homescreen.")
    (set_name "Could not get your current location" st).

(** *** Geolocation *)

Definition earthRadiusKm : number := Fin 6371.

(** The haversine distance of [updateDistance], from the point
    [(lat, lon)] to the point [(tLat, tLon)], both in degrees.  With exact
    arithmetic [a] stays in [0, 1]; what rounding does to it is the matter
    of [Double.a]. *)
Definition haversine (tLat tLon lat lon : number) : number :=
  let dLat := div (mul (sub tLat lat) Math_PI) (Fin 180) in
  let dLon := div (mul (sub tLon lon) Math_PI) (Fin 180) in
  let a :=
    add (mul (Math_sin (div dLat (Fin 2))) (Math_sin (div dLat (Fin 2))))
        (mul (mul (mul (Math_cos (div (mul lat Math_PI) (Fin 180)))
                       (Math_cos (div (mul tLat Math_PI) (Fin 180))))
                  (Math_sin (div dLon (Fin 2))))
             (Math_sin (div dLon (Fin 2)))) in
  let c := mul (Fin 2) (Math_atan2 (Math_sqrt a) (Math_sqrt (sub (Fin 1) a))) in
  mul earthRadiusKm c.

(** The real number that the [a] of [haversine] holds on finite
    coordinates; the square roots are taken of it and of [1 - a]. *)
Definition haversine_a (tLat tLon lat lon : R) : R :=
  sin ((tLat - lat) * PI / 180 / 2) * sin ((tLat - lat) * PI / 180 / 2) +
  cos (lat * PI / 180) * cos (tLat * PI / 180) *
  sin ((tLon - lon) * PI / 180 / 2) * sin ((tLon - lon) * PI / 180 / 2).

Definition updateDistance (st : State) : State :=
  match _lat st, _lon st with
  | Some lat, Some lon =>
      let dst := haversine bbLat bbLon lat lon in
      set_distance (String.append (toFixed0 dst) " km") st
  | _, _ => st
  end.

(** The success callback of [getCurrentPosition] and of [watchPosition]. *)
Definition onPosition (latitude longitude : number) (st : State) : State :=
  updateDistance (set_position latitude longitude st).

(** The error callback of both. *)
Definition onPositionError (message : string) (st : State) : State :=
  fail (Some message) st.

(** *** Orientation handling *)

(** The local [_alpha] of [updateOrientation] once its first two
    conditionals have run. *)
Definition _alpha (event : DeviceOrientationEvent) : value :=
  let _alpha := Undefined in
  let _alpha :=
    if truthy (webkitCompassHeading event)
    then webkitCompassHeading event
    else _alpha in
  let _alpha :=
    if absolute event && not_nullish (alpha event)
    then alpha event
    else _alpha in
  _alpha.

(** Steps 1 to 3 of [updateOrientation]: the forward azimuth from
    [(lat, lon)] to [(tLat, tLon)], in degrees. *)
Definition bearing (tLat tLon lat lon : number) : number :=
  let lat1Rad := div (mul lat Math_PI) (Fin 180) in
  let lat2Rad := div (mul tLat Math_PI) (Fin 180) in
  let deltaLonRad := div (mul (sub tLon lon) Math_PI) (Fin 180) in
  let y := mul (Math_sin deltaLonRad) (Math_cos lat2Rad) in
  let x := sub (mul (Math_cos lat1Rad) (Math_sin lat2Rad))
               (mul (mul (Math_sin lat1Rad) (Math_cos lat2Rad))
                    (Math_cos deltaLonRad)) in
  let bearingFromNorth := div (mul (Math_atan2 y x) (Fin 180)) Math_PI in
  rem (add bearingFromNorth (Fin 360)) (Fin 360).

Definition bearingFromNorth (lat lon : number) : number :=
  bearing bbLat bbLon lat lon.

(** Steps 4 and 5. *)
Definition relativeBearing (bearingFromNorth heading : number) : number :=
  let relativeBearing := sub bearingFromNorth heading in
  let relativeBearing :=
    if gt relativeBearing (Fin 180)
    then sub relativeBearing (Fin 360)
    else relativeBearing in
  let relativeBearing :=
    if lt relativeBearing (Fin (-180))
    then add relativeBearing (Fin 360)
    else relativeBearing in
  relativeBearing.

Definition updateOrientation (event : DeviceOrientationEvent) (st : State)
  : State :=
  if is_undefined (_alpha event)
  then removeEventListener (set_compassAvailable false st)
  else
    match _lat st, _lon st with
    | Some lat, Some lon =>
        set_arrowRotation
          (relativeBearing (bearingFromNorth lat lon)
                           (to_number (_alpha event)))
          (set_compassAvailable true st)
    | _, _ => st
    end.

(** What [startOrientationTracking] learns about the permission. *)
Inductive Permission : Type :=
| NotRequired
| Granted
| Denied
| Rejected.

Definition startOrientationTracking (p : Permission) (st : State) : State :=
  match p with
  | NotRequired | Granted => addEventListener st
  | Denied | Rejected => st
  end.

(** The window delivers an orientation event to [updateOrientation] only
    while it is registered. *)
Definition dispatch (event : DeviceOrientationEvent) (st : State) : State :=
  if deviceorientation st then updateOrientation event st else st.

Definition dispatch_all (events : list DeviceOrientationEvent) (st : State)
  : State :=
  fold_left (fun s e => dispatch e s) events st.

(** *** Initialization *)

(** [init] marks the component initialized and requests the first fix;
    what follows reaches the component through the callbacks above. *)
Definition init (st : State) : State := set_initialized true st.

(** What the page and the platform can do to the component. *)
Inductive Input : Type :=
| Click
| Position (latitude longitude : number)
| PositionError (message : string)
| Tracking (p : Permission)
| Orientation (event : DeviceOrientationEvent).

Definition step (st : State) (i : Input) : State :=
  match i with
  | Click => init st
  | Position latitude longitude => onPosition latitude longitude st
  | PositionError message => onPositionError message st
  | Tracking p => startOrientationTracking p st
  | Orientation event => dispatch event st
  end.

Definition run (inputs : list Input) (st : State) : State :=
  fold_left step inputs st.

Definition is_position (i : Input) : bool :=
  match i with
  | Position _ _ => true
  | _ => false
  end.

(** While no fix has arrived the position is undefined, the arrow is hidden
    and its rotation is the initial 0. *)
Definition before_first_fix (st : State) : Prop :=
  _lat st = None /\ _lon st = None
  /\ compassAvailable st = false /\ arrowRotation st = Fin 0.

(** A fix has been stored. *)
Definition has_position (st : State) : Prop :=
  exists lat lon, _lat st = Some lat /\ _lon st = Some lon.

(** The two coordinates are written together, and the arrow is shown only
    by the branch that has read both. *)
Definition consistent (st : State) : Prop :=
  (_lat st = None <-> _lon st = None)
  /\ (compassAvailable st = true -> has_position st).

(** How the first request of [initGeolocation] ends: no geolocation object,
    a fix, an error, or no callback at all. *)
Inductive FirstFix : Type :=
| Unsupported
| Fix (latitude longitude : number)
| FixError (message : string)
| NoAnswer.

(** [initGeolocation]: the state it leaves, and whether its promise is
    resolved (it is rejected on the two failures and stays pending without
    a callback). *)
Definition initGeolocation (g : FirstFix) (st : State) : State * bool :=
  match g with
  | Unsupported => (fail None st, false)
  | Fix latitude longitude => (onPosition latitude longitude st, true)
  | FixError message => (fail (Some message) st, false)
  | NoAnswer => (st, false)
  end.

(** [init] followed through its two awaits: orientation tracking is started
    only once the promise of [initGeolocation] is resolved; a rejection of
    either promise is caught and only logged. *)
Definition init_with (g : FirstFix) (p : Permission) (st : State) : State :=
  let (st', resolved) := initGeolocation g (init st) in
  if resolved then startOrientationTracking p st' else st'.

(** The inputs that follow [init]: fixes and errors of the position watch,
    and orientation events. *)
Definition is_sensor (i : Input) : bool :=
  match i with
  | Position _ _ | PositionError _ | Orientation _ => true
  | Click | Tracking _ => false
  end.

(** Whether an input registers the orientation listener. *)
Definition grants (i : Input) : bool :=
  match i with
  | Tracking NotRequired | Tracking Granted => true
  | _ => false
  end.

End Compass.

(** ** The earlier revision of [updateOrientation]

  It reads only [absolute] and [alpha]; the rest of the script is the one
  above, without [initialized], except for the start-up below. *)

Module Part000.
Import Js.
Import Compass.

Definition updateOrientation (event : DeviceOrientationEvent) (st : State)
  : State :=
  if negb (absolute event) || is_null (alpha event)
  then removeEventListener (set_compassAvailable false st)
  else
    match _lat st, _lon st with
    | Some lat, Some lon =>
        set_arrowRotation
          (relativeBearing (bearingFromNorth lat lon)
                           (to_number (alpha event)))
          (set_compassAvailable true st)
    | _, _ => st
    end.

(** [initGeolocation] of the earlier revision returns at once; without a
    geolocation object it only reports the failure. *)
Definition initGeolocation (supported : bool) (st : State) : State :=
  if supported then st else fail None st.

(** [init] of the earlier revision starts both acquisitions together. *)
Definition init (supported : bool) (p : Permission) (st : State) : State :=
  startOrientationTracking p (initGeolocation supported st).

End Part000.

(** ** The distance in doubles

    Lines 94 to 102 of [updateDistance] on IEEE-754 doubles.  Subtraction,
    multiplication, division and [Math.sqrt] are the correctly rounded
    operations; [Math.sin], [Math.cos] and [Math.atan2] are approximations
    that the language leaves to the engine, so they are parameters. *)

Module Double.
Import PrimFloat.
Local Open Scope float_scope.

(** [Math.PI], and the doubles that the literals 37.551447 and 127.047016
    denote. *)
Definition Math_PI : float := 0x1.921fb54442d18p+1.
Definition bbLat : float := 0x1.2c695d0b73d19p+5.
Definition bbLon : float := 0x1.fc3024f6598e1p+6.

Section Library.

Variables Math_sin Math_cos : float -> float.
Variable Math_atan2 : float -> float -> float.

Definition a (lat lon : float) : float :=
  let dLat := (bbLat - lat) * Math_PI / 180 in
  let dLon := (bbLon - lon) * Math_PI / 180 in
  Math_sin (dLat / 2) * Math_sin (dLat / 2)
  + Math_cos (lat * Math_PI / 180) * Math_cos (bbLat * Math_PI / 180)
    * Math_sin (dLon / 2) * Math_sin (dLon / 2).

Definition dst (lat lon : float) : float :=
  let c := 2 * Math_atan2 (sqrt (a lat lon)) (sqrt (1 - a lat lon)) in
  6371 * c.

End Library.

End Double.

(** * Properties *)

(** ** Real analysis behind the handlers *)

Section Analysis.

Lemma sin_sqr_half (x : R) : sin (x / 2) * sin (x / 2) = (1 - cos x) / 2.
Proof.
  replace (cos x) with (cos (2 * (x / 2))) by (f_equal; field).
  rewrite cos_2a_sin. field.
Qed.

(** The haversine argument is a squared half-chord: it stays in [0, 1]. *)
Lemma hav_range (p q v : R) :
  0 <= sin ((q - p) / 2) * sin ((q - p) / 2)
       + cos p * cos q * sin v * sin v <= 1.
Proof.
  rewrite sin_sqr_half, cos_minus.
  pose proof (COS_bound (q - p)) as [A1 A2].
  pose proof (COS_bound (q + p)) as [B1 B2].
  rewrite cos_minus in A1, A2. rewrite cos_plus in B1, B2.
  pose proof (SIN_bound v) as [S1 S2].
  assert (Hs : 0 <= sin v * sin v <= 1) by nra.
  set (X := cos q * cos p) in *. set (Y := sin q * sin p) in *.
  replace (cos p * cos q * sin v * sin v) with (X * (sin v * sin v))
    by (unfold X; ring).
  set (s := sin v * sin v) in *.
  split; nra.
Qed.

Lemma haversine_a_range (tLat tLon lat lon : R) :
  0 <= Compass.haversine_a tLat tLon lat lon <= 1.
Proof.
  unfold Compass.haversine_a.
  replace ((tLat - lat) * PI / 180 / 2)
    with ((tLat * PI / 180 - lat * PI / 180) / 2) by field.
  apply hav_range.
Qed.

Lemma haversine_a_sym (tLat tLon lat lon : R) :
  Compass.haversine_a tLat tLon lat lon = Compass.haversine_a lat lon tLat tLon.
Proof.
  unfold Compass.haversine_a.
  replace ((lat - tLat) * PI / 180 / 2) with (- ((tLat - lat) * PI / 180 / 2))
    by field.
  replace ((lon - tLon) * PI / 180 / 2) with (- ((tLon - lon) * PI / 180 / 2))
    by field.
  rewrite !sin_neg. ring.
Qed.

Lemma haversine_a_self (lat lon : R) : Compass.haversine_a lat lon lat lon = 0.
Proof.
  unfold Compass.haversine_a.
  replace ((lat - lat) * PI / 180 / 2) with 0 by field.
  replace ((lon - lon) * PI / 180 / 2) with 0 by field.
  rewrite sin_0. ring.
Qed.

Lemma atan_le (x y : R) : x <= y -> atan x <= atan y.
Proof.
  intros [H|H]; [left; now apply atan_increasing|subst; lra].
Qed.

Lemma Ratan2_range (y x : R) : - PI < Js.Ratan2 y x <= PI.
Proof.
  pose proof PI_RGT_0 as Hpi.
  pose proof (atan_bound (y / x)) as [L U].
  unfold Js.Ratan2.
  destruct (Rlt_dec 0 x) as [Hx|Hx]; [lra|].
  destruct (Rlt_dec x 0) as [Hx'|Hx'].
  - assert (Hi : / x < 0) by (apply Rinv_lt_0_compat; lra).
    destruct (Rle_dec 0 y) as [Hy|Hy].
    + assert (Hq : y / x <= 0) by (unfold Rdiv; nra).
      apply atan_le in Hq. rewrite atan_0 in Hq. lra.
    + assert (Hq : 0 < y / x) by (unfold Rdiv; nra).
      apply atan_increasing in Hq. rewrite atan_0 in Hq. lra.
  - destruct (Rlt_dec 0 y); [lra|]. destruct (Rlt_dec y 0); lra.
Qed.

Lemma Ratan2_nonneg (y x : R) : 0 <= y -> 0 <= Js.Ratan2 y x.
Proof.
  intros Hy. pose proof PI_RGT_0 as Hpi.
  pose proof (atan_bound (y / x)) as [L U].
  unfold Js.Ratan2.
  destruct (Rlt_dec 0 x) as [Hx|Hx].
  - assert (Hi : 0 < / x) by (apply Rinv_0_lt_compat; lra).
    assert (Hq : 0 <= y / x) by (unfold Rdiv; nra).
    apply atan_le in Hq. rewrite atan_0 in Hq. lra.
  - destruct (Rlt_dec x 0) as [Hx'|Hx'].
    + destruct (Rle_dec 0 y); lra.
    + destruct (Rlt_dec 0 y); [lra|]. destruct (Rlt_dec y 0); lra.
Qed.

(** On a dividend that is not negative [%] is the usual remainder. *)
Lemma rem_range (x m : R) :
  0 <= x -> 0 < m -> 0 <= x - m * Js.trunc (x / m) < m.
Proof.
  intros Hx Hm. unfold Js.trunc.
  assert (Hi : 0 < / m) by (apply Rinv_0_lt_compat; lra).
  assert (Hq : 0 <= x / m) by (unfold Rdiv; nra).
  destruct (Rle_dec 0 (x / m)) as [_|N]; [|lra].
  destruct (base_Int_part (x / m)) as [A B].
  assert (E : x = m * (x / m)) by (field; lra).
  split; nra.
Qed.

End Analysis.

(** ** Polynomial enclosures of the trigonometric functions *)

Section Enclosures.

Lemma PI_bounds : 31415 / 10000 < PI < 31421 / 10000.
Proof.
  pose proof (PI_2_3_7_ineq 1) as [L U].
  unfold PI_2_3_7_tg, tg_alt, Ratan_seq in L, U.
  simpl in L, U.
  lra.
Qed.

Lemma cos_lower (x : R) : - (PI / 2) <= x <= PI / 2 -> 1 - x * x / 2 <= cos x.
Proof.
  intros [A B]. assert (A' : - PI / 2 <= x) by lra.
  pose proof (cos_bound x 0 A' B) as [L _].
  unfold cos_approx, cos_term in L. simpl in L. lra.
Qed.

Lemma cos_upper (x : R) :
  - (PI / 2) <= x <= PI / 2 ->
  cos x <= 1 - x * x / 2 + x * x * x * x / 24.
Proof.
  intros [A B]. assert (A' : - PI / 2 <= x) by lra.
  pose proof (cos_bound x 0 A' B) as [_ U].
  unfold cos_approx, cos_term in U. simpl in U. lra.
Qed.

Lemma sin_lower (x : R) : 0 <= x <= PI -> x - x * x * x / 6 <= sin x.
Proof.
  intros [A B]. pose proof (sin_bound x 0 A B) as [L _].
  unfold sin_approx, sin_term in L. simpl in L. lra.
Qed.

Lemma sin_upper (x : R) : 0 <= x -> sin x <= x.
Proof.
  intros [A|A]; [left; now apply sin_lt_x|subst; rewrite sin_0; lra].
Qed.

(** Below a thousandth of a radian the sine loses less than a millionth
    of its argument. *)
Lemma small_sin (x lo hi : R) :
  0 < lo -> lo <= x <= hi -> hi <= / 1000 ->
  lo * (999999 / 1000000) <= sin x <= hi.
Proof.
  intros Hlo [A B] Hhi. pose proof PI_bounds as [P1 P2].
  assert (R : 0 <= x <= PI) by lra.
  pose proof (sin_lower x R). pose proof (sin_upper x (proj1 R)).
  assert (x * x <= / 1000000) by nra.
  assert (x * x * x <= x * / 1000000) by nra.
  split; lra.
Qed.

Lemma atan_lower (l t : R) :
  0 <= l <= 1 -> l <= t * (1 - l * l / 2) -> l <= atan t.
Proof.
  intros [L0 L1] H. pose proof PI_bounds as [P1 P2].
  assert (R : - (PI / 2) <= l <= PI / 2) by lra.
  pose proof (cos_lower l R) as C. pose proof (sin_upper l L0) as S.
  assert (Cpos : 0 < cos l) by nra.
  assert (T : tan l <= t).
  { unfold tan. apply Rmult_le_reg_r with (cos l); [exact Cpos|].
    replace (sin l / cos l * cos l) with (sin l) by (field; lra).
    assert (K : / 2 <= 1 - l * l / 2) by nra.
    set (k := 1 - l * l / 2) in *.
    assert (T0 : 0 <= t).
    { destruct (Rle_dec 0 t) as [|N]; [assumption|].
      assert (t * k < 0) by nra. lra. }
    assert (0 <= t * (cos l - k)) by (apply Rmult_le_pos; lra).
    lra. }
  rewrite <- (atan_tan l) by lra. now apply atan_le.
Qed.

Lemma atan_upper (h t : R) :
  0 <= h <= 1 -> t <= h - h * h * h / 6 -> atan t <= h.
Proof.
  intros [H0 H1] H. pose proof PI_bounds as [P1 P2].
  assert (R : - (PI / 2) <= h <= PI / 2) by lra.
  assert (R' : 0 <= h <= PI) by lra.
  pose proof (cos_lower h R) as C. pose proof (COS_bound h) as [_ C1].
  pose proof (sin_lower h R') as S.
  assert (Cpos : 0 < cos h) by nra.
  assert (S0 : 0 <= sin h) by (apply sin_ge_0; lra).
  assert (T : t <= tan h).
  { unfold tan. apply Rmult_le_reg_r with (cos h); [exact Cpos|].
    replace (sin h / cos h * cos h) with (sin h) by (field; lra).
    destruct (Rle_dec 0 t) as [T0|T0].
    - assert (t * cos h <= t * 1) by (apply Rmult_le_compat_l; lra). lra.
    - assert (0 <= - t * cos h) by (apply Rmult_le_pos; lra). lra. }
  rewrite <- (atan_tan h) by lra. now apply atan_le.
Qed.

Lemma sqrt_between (x lo hi : R) :
  0 <= lo -> 0 <= hi -> lo * lo <= x <= hi * hi -> lo <= sqrt x <= hi.
Proof.
  intros Hlo Hhi [A B]. split.
  - rewrite <- (sqrt_square lo Hlo). apply sqrt_le_1_alt. exact A.
  - rewrite <- (sqrt_square hi Hhi). apply sqrt_le_1_alt. exact B.
Qed.

End Enclosures.

(** ** The anchor pair: observer (37.5, 127), target Backyard Builder *)

Section Anchor.

Local Abbreviation tLat := (37551447 / 1000000).
Local Abbreviation tLon := (127047016 / 1000000).
Local Abbreviation oLat := (375 / 10).
Local Abbreviation oLon := 127.

Lemma anchor_cos_observer :
  7857 / 10000 <= cos (oLat * PI / 180) <= 7935 / 10000.
Proof.
  pose proof PI_bounds as [P1 P2].
  set (x := oLat * PI / 180).
  assert (X : 65447 / 100000 <= x <= 65461 / 100000) by (unfold x; lra).
  assert (R : - (PI / 2) <= x <= PI / 2) by lra.
  pose proof (cos_lower x R). pose proof (cos_upper x R).
  assert (x * x <= 65461 / 100000 * (65461 / 100000)) by nra.
  assert (65447 / 100000 * (65447 / 100000) <= x * x) by nra.
  assert (x * x * x * x
          <= 65461 / 100000 * (65461 / 100000)
             * (65461 / 100000 * (65461 / 100000))) by nra.
  lra.
Qed.

Lemma anchor_cos_target :
  7851 / 10000 <= cos (tLat * PI / 180) <= 7930 / 10000.
Proof.
  pose proof PI_bounds as [P1 P2].
  set (x := tLat * PI / 180).
  assert (X : 65537 / 100000 <= x <= 65551 / 100000) by (unfold x; lra).
  assert (R : - (PI / 2) <= x <= PI / 2) by lra.
  pose proof (cos_lower x R). pose proof (cos_upper x R).
  assert (x * x <= 65551 / 100000 * (65551 / 100000)) by nra.
  assert (65537 / 100000 * (65537 / 100000) <= x * x) by nra.
  assert (x * x * x * x
          <= 65551 / 100000 * (65551 / 100000)
             * (65551 / 100000 * (65551 / 100000))) by nra.
  lra.
Qed.

Lemma anchor_sin_dLat :
  44894 / 100000000 <= sin ((tLat - oLat) * PI / 180 / 2)
  <= 44904 / 100000000.
Proof.
  pose proof PI_bounds as [P1 P2].
  set (x := (tLat - oLat) * PI / 180 / 2).
  assert (X : 448946 / 1000000000 <= x <= 449033 / 1000000000)
    by (unfold x; lra).
  pose proof (small_sin x (448946 / 1000000000) (449033 / 1000000000)) as S.
  lra.
Qed.

Lemma anchor_sin_dLon :
  41027 / 100000000 <= sin ((tLon - oLon) * PI / 180 / 2)
  <= 41036 / 100000000.
Proof.
  pose proof PI_bounds as [P1 P2].
  set (x := (tLon - oLon) * PI / 180 / 2).
  assert (X : 410279 / 1000000000 <= x <= 410359 / 1000000000)
    by (unfold x; lra).
  pose proof (small_sin x (410279 / 1000000000) (410359 / 1000000000)) as S.
  lra.
Qed.

Lemma anchor_a :
  30 / 100000000 <= Compass.haversine_a tLat tLon oLat oLon
  <= 31 / 100000000.
Proof.
  unfold Compass.haversine_a.
  pose proof anchor_cos_observer as [C1 C1'].
  pose proof anchor_cos_target as [C2 C2'].
  pose proof anchor_sin_dLat as [U U']. pose proof anchor_sin_dLon as [V V'].
  set (c1 := cos (oLat * PI / 180)) in *.
  set (c2 := cos (tLat * PI / 180)) in *.
  set (su := sin ((tLat - oLat) * PI / 180 / 2)) in *.
  set (sv := sin ((tLon - oLon) * PI / 180 / 2)) in *.
  assert (Hu : 44894 / 100000000 * (44894 / 100000000) <= su * su
               <= 44904 / 100000000 * (44904 / 100000000)) by nra.
  assert (Hv : 41027 / 100000000 * (41027 / 100000000) <= sv * sv
               <= 41036 / 100000000 * (41036 / 100000000)) by nra.
  assert (Hc : 7857 / 10000 * (7851 / 10000) <= c1 * c2
               <= 7935 / 10000 * (7930 / 10000)) by nra.
  replace (c1 * c2 * sv * sv) with (c1 * c2 * (sv * sv)) by ring.
  set (cc := c1 * c2) in *. set (vv := sv * sv) in *.
  set (uu := su * su) in *.
  assert (Hcv : 7857 / 10000 * (7851 / 10000)
                * (41027 / 100000000 * (41027 / 100000000)) <= cc * vv
                <= 7935 / 10000 * (7930 / 10000)
                   * (41036 / 100000000 * (41036 / 100000000))) by nra.
  lra.
Qed.

(** The great-circle distance of the anchor pair, in kilometres. *)
Lemma anchor_dst :
  66 / 10
  <= 6371 * (2 * Js.Ratan2 (sqrt (Compass.haversine_a tLat tLon oLat oLon))
                   (sqrt (1 - Compass.haversine_a tLat tLon oLat oLon)))
  <= 74 / 10.
Proof.
  pose proof anchor_a as A.
  set (a := Compass.haversine_a tLat tLon oLat oLon) in *.
  assert (N : 547 / 1000000 <= sqrt a <= 557 / 1000000)
    by (apply sqrt_between; lra).
  assert (D : 9999 / 10000 <= sqrt (1 - a) <= 1)
    by (apply sqrt_between; lra).
  unfold Js.Ratan2. destruct (Rlt_dec 0 (sqrt (1 - a))) as [_|F]; [|lra].
  set (n := sqrt a) in *. set (d := sqrt (1 - a)) in *.
  assert (Q : 547 / 1000000 <= n / d <= 558 / 1000000).
  { split; (apply Rmult_le_reg_r with d; [lra|]);
      replace (n / d * d) with n by (field; lra); nra. }
  assert (L : 52 / 100000 <= atan (n / d)) by (apply atan_lower; nra).
  assert (U : atan (n / d) <= 58 / 100000) by (apply atan_upper; nra).
  lra.
Qed.

End Anchor.

(** ** Evaluation on finite numbers *)

Import Js Compass.

Lemma div_fin (x y : R) : y <> 0 -> div (Fin x) (Fin y) = Fin (x / y).
Proof.
  intros Hy. unfold div. destruct (Req_dec_T y 0); [contradiction|reflexivity].
Qed.

Lemma Math_sqrt_fin (x : R) : 0 <= x -> Math_sqrt (Fin x) = Fin (sqrt x).
Proof.
  intros Hx. unfold Math_sqrt. destruct (Rlt_dec x 0); [lra|reflexivity].
Qed.

Lemma rem_fin (x y : R) :
  y <> 0 -> rem (Fin x) (Fin y) = Fin (x - y * trunc (x / y)).
Proof.
  intros Hy. unfold rem. destruct (Req_dec_T y 0); [contradiction|reflexivity].
Qed.

Lemma gt_true (x y : R) : y < x -> gt (Fin x) (Fin y) = true.
Proof. intros H. unfold gt. destruct (Rlt_dec y x); [reflexivity|lra]. Qed.

Lemma gt_false (x y : R) : x <= y -> gt (Fin x) (Fin y) = false.
Proof. intros H. unfold gt. destruct (Rlt_dec y x); [lra|reflexivity]. Qed.

Lemma truthy_number (x : R) : x <> 0 -> truthy (Number (Fin x)) = true.
Proof.
  intros H. unfold truthy.
  destruct (Req_dec_T x 0); [contradiction|reflexivity].
Qed.

Lemma truthy_zero : truthy (Number (Fin 0)) = false.
Proof.
  unfold truthy. destruct (Req_dec_T 0 0) as [_|N]; [reflexivity|now elim N].
Qed.

Lemma PI_nonzero : PI <> 0.
Proof. pose proof PI_RGT_0. lra. Qed.

Ltac js_fin :=
  unfold Math_PI, add, sub, mul, Math_sin, Math_cos, Math_atan2, lift1, lift2;
  repeat (rewrite div_fin by (try apply PI_nonzero; lra)).

Lemma haversine_fin (tLat tLon lat lon : R) :
  haversine (Fin tLat) (Fin tLon) (Fin lat) (Fin lon) =
  Fin (6371 * (2 * Ratan2 (sqrt (haversine_a tLat tLon lat lon))
                          (sqrt (1 - haversine_a tLat tLon lat lon)))).
Proof.
  pose proof (haversine_a_range tLat tLon lat lon) as [A0 A1].
  unfold haversine_a in *.
  unfold haversine, earthRadiusKm. js_fin.
  rewrite Math_sqrt_fin by lra. rewrite Math_sqrt_fin by lra.
  reflexivity.
Qed.

Lemma bearing_fin (tLat tLon lat lon : R) :
  exists b, bearing (Fin tLat) (Fin tLon) (Fin lat) (Fin lon) = Fin b
            /\ 0 <= b < 360.
Proof.
  unfold bearing. js_fin. rewrite rem_fin by lra.
  eexists. split; [reflexivity|].
  apply rem_range; [|lra].
  match goal with
  | |- context [Ratan2 ?y ?x] =>
      pose proof (Ratan2_range y x) as [L U]; set (t := Ratan2 y x) in *
  end.
  pose proof PI_RGT_0 as Hpi.
  assert (- 180 <= t * 180 / PI).
  { apply Rmult_le_reg_r with PI; [lra|].
    replace (t * 180 / PI * PI) with (t * 180) by (field; lra). lra. }
  lra.
Qed.

Lemma relativeBearing_fin (b h : R) :
  relativeBearing (Fin b) (Fin h) =
  Fin (if Rlt_dec 180 (b - h) then b - h - 360
       else if Rlt_dec (b - h) (-180) then b - h + 360 else b - h).
Proof.
  unfold relativeBearing, lt, sub, add, lift2.
  destruct (Rlt_dec 180 (b - h)) as [H|H].
  - rewrite gt_true by lra.
    destruct (Rlt_dec (b - h) (-180)) as [H'|H']; [lra|].
    rewrite gt_false by lra. reflexivity.
  - rewrite gt_false by lra.
    destruct (Rlt_dec (b - h) (-180)) as [H'|H'].
    + rewrite gt_true by lra. reflexivity.
    + rewrite gt_false by lra. reflexivity.
Qed.

(** ** Which heading the handler uses *)

Lemma _alpha_absolute (e : DeviceOrientationEvent) (a : number) :
  absolute e = true -> alpha e = Number a -> _alpha e = Number a.
Proof.
  intros Ha Hn. unfold _alpha. rewrite Ha, Hn. reflexivity.
Qed.

Lemma _alpha_fallback (e : DeviceOrientationEvent) :
  absolute e = false \/ alpha e = Null \/ alpha e = Undefined ->
  _alpha e = if truthy (webkitCompassHeading e)
             then webkitCompassHeading e else Undefined.
Proof.
  intros H. unfold _alpha.
  assert (G : absolute e && not_nullish (alpha e) = false).
  { destruct H as [H|[H|H]]; rewrite H; [reflexivity| |];
      apply andb_false_r. }
  rewrite G. reflexivity.
Qed.

Lemma updateOrientation_rotates (e : DeviceOrientationEvent) (st : State)
      (lat lon : number) :
  is_undefined (_alpha e) = false ->
  _lat st = Some lat -> _lon st = Some lon ->
  updateOrientation e st =
  set_arrowRotation
    (relativeBearing (bearingFromNorth lat lon) (to_number (_alpha e)))
    (set_compassAvailable true st).
Proof.
  intros Hu Hlat Hlon. unfold updateOrientation. rewrite Hu, Hlat, Hlon.
  reflexivity.
Qed.

Lemma updateOrientation_degraded (e : DeviceOrientationEvent) (st : State) :
  is_undefined (_alpha e) = true ->
  updateOrientation e st = removeEventListener (set_compassAvailable false st).
Proof.
  intros Hu. unfold updateOrientation. rewrite Hu. reflexivity.
Qed.

Lemma updateOrientation_no_position (e : DeviceOrientationEvent) (st : State) :
  is_undefined (_alpha e) = false ->
  _lat st = None \/ _lon st = None ->
  updateOrientation e st = st.
Proof.
  intros Hu H. unfold updateOrientation. rewrite Hu.
  destruct H as [H|H]; rewrite H; [reflexivity|].
  destruct (_lat st); reflexivity.
Qed.

(** C1, as the specification has it, fails: a sample that carries a compass
    heading of 90 and is also absolute with [alpha] 45 is processed with 45,
    and the arrow is turned by the bearing minus 45. *)
Lemma compass_heading_overridden_by_alpha :
  let e := {| webkitCompassHeading := Number (Fin 90);
              absolute := true;
              alpha := Number (Fin 45) |} in
  truthy (webkitCompassHeading e) = true
  /\ _alpha e = Number (Fin 45)
  /\ _alpha e <> webkitCompassHeading e
  /\ forall st lat lon,
       _lat st = Some lat -> _lon st = Some lon ->
       arrowRotation (updateOrientation e st)
       = relativeBearing (bearingFromNorth lat lon) (Fin 45).
Proof.
  cbv zeta. repeat split.
  - apply truthy_number. lra.
  - intros E. cbn in E. injection E as E. lra.
  - intros st lat lon Hlat Hlon.
    rewrite (updateOrientation_rotates _ st lat lon); auto.
Qed.

(** C1, amended.  When the compass-heading field is a non-zero number, the
    heading that enters the rotation is [alpha] whenever the sample is
    absolute and [alpha] is neither null nor undefined, whatever the
    compass-heading field holds; the compass-heading field is used exactly
    when [alpha] is not usable in that sense.  Either way the sample is not
    degraded and the rotation is computed from the chosen heading. *)
Theorem heading_precedence (e : DeviceOrientationEvent) (x : R) :
  webkitCompassHeading e = Number (Fin x) -> x <> 0 ->
  (forall a, absolute e = true -> alpha e = Number a -> _alpha e = Number a)
  /\ (absolute e = false \/ alpha e = Null \/ alpha e = Undefined ->
      _alpha e = Number (Fin x))
  /\ (forall st lat lon,
        _lat st = Some lat -> _lon st = Some lon ->
        arrowRotation (updateOrientation e st)
        = relativeBearing (bearingFromNorth lat lon) (to_number (_alpha e))).
Proof.
  intros Hw Hx. split; [|split].
  - intros a. apply _alpha_absolute.
  - intros H. rewrite (_alpha_fallback e H), Hw, truthy_number by exact Hx.
    reflexivity.
  - intros st lat lon Hlat Hlon.
    rewrite (updateOrientation_rotates e st lat lon); auto.
    unfold _alpha. rewrite Hw, truthy_number by exact Hx.
    destruct (absolute e && not_nullish (alpha e)) eqn:G; [|reflexivity].
    apply andb_true_iff in G as [_ G]. destruct (alpha e); easy.
Qed.

Lemma heading_precedence_witness :
  let e := {| webkitCompassHeading := Number (Fin 90);
              absolute := true;
              alpha := Number (Fin 45) |} in
  _alpha e = Number (Fin 45).
Proof.
  intros e.
  assert (H90 : (90 : R) <> 0) by lra.
  exact (proj1 (heading_precedence e 90 eq_refl H90) (Fin 45) eq_refl eq_refl).
Defined.

(** C2.  A compass heading of exactly 0 fails the truthiness test and is
    never used: an absolute sample with a usable [alpha] is processed with
    [alpha], every other sample is degraded. *)
Theorem zero_compass_heading_falls_through (e : DeviceOrientationEvent) :
  webkitCompassHeading e = Number (Fin 0) ->
  truthy (webkitCompassHeading e) = false
  /\ (forall a, absolute e = true -> alpha e = Number a -> _alpha e = Number a)
  /\ (absolute e = false \/ alpha e = Null \/ alpha e = Undefined ->
      _alpha e = Undefined
      /\ forall st,
           updateOrientation e st
           = removeEventListener (set_compassAvailable false st)).
Proof.
  intros Hw. split; [|split].
  - rewrite Hw. apply truthy_zero.
  - intros a. apply _alpha_absolute.
  - intros H.
    assert (E : _alpha e = Undefined)
      by (rewrite (_alpha_fallback e H), Hw, truthy_zero; reflexivity).
    split; [exact E|].
    intros st. apply updateOrientation_degraded. rewrite E. reflexivity.
Qed.

Lemma zero_compass_heading_falls_through_witness :
  let e := {| webkitCompassHeading := Number (Fin 0);
              absolute := false;
              alpha := Null |} in
  truthy (webkitCompassHeading e) = false /\ _alpha e = Undefined.
Proof.
  intros e.
  pose proof (zero_compass_heading_falls_through e eq_refl) as [T [_ D]].
  split; [exact T|].
  exact (proj1 (D (or_introl eq_refl))).
Defined.

(** ** Rotation *)

(** C3.  For a bearing and a heading in [0, 360) the rotation lies in
    [-180, 180], and adding the heading back gives the bearing modulo 360
    (the remainder of the floored division, which is not negative). *)
Theorem relativeBearing_normalized (b h : R) :
  0 <= b < 360 -> 0 <= h < 360 ->
  exists r,
    relativeBearing (Fin b) (Fin h) = Fin r
    /\ -180 <= r <= 180
    /\ (r + h) - 360 * IZR (Int_part ((r + h) / 360)) = b.
Proof.
  intros Hb Hh. rewrite relativeBearing_fin.
  eexists. split; [reflexivity|].
  destruct (Rlt_dec 180 (b - h)) as [H|H];
    [|destruct (Rlt_dec (b - h) (-180)) as [H'|H']].
  - split; [lra|].
    replace (b - h - 360 + h) with (b - 360) by ring.
    rewrite <- (Int_part_spec ((b - 360) / 360) (-1)); [simpl; lra|].
    simpl. lra.
  - split; [lra|].
    replace (b - h + 360 + h) with (b + 360) by ring.
    rewrite <- (Int_part_spec ((b + 360) / 360) 1); [simpl; lra|].
    simpl. lra.
  - split; [lra|].
    replace (b - h + h) with b by ring.
    rewrite <- (Int_part_spec (b / 360) 0); [simpl; lra|].
    simpl. lra.
Qed.

Lemma relativeBearing_normalized_witness :
  exists r,
    relativeBearing (Fin 350) (Fin 10) = Fin r
    /\ -180 <= r <= 180
    /\ (r + 10) - 360 * IZR (Int_part ((r + 10) / 360)) = 350.
Proof.
  apply (relativeBearing_normalized 350 10); lra.
Defined.

(** With JavaScript's own [%], whose result takes the sign of the dividend,
    the same sum does not come back to the bearing once the rotation has
    been wrapped downwards. *)
Lemma relativeBearing_rem_negative :
  relativeBearing (Fin 350) (Fin 10) = Fin (-20)
  /\ rem (add (Fin (-20)) (Fin 10)) (Fin 360) = Fin (-10).
Proof.
  split.
  - rewrite relativeBearing_fin. f_equal.
    destruct (Rlt_dec 180 (350 - 10)); lra.
  - unfold add, lift2. rewrite rem_fin by lra. f_equal.
    unfold trunc. destruct (Rle_dec 0 ((-20 + 10) / 360)) as [P|_]; [lra|].
    rewrite <- (Int_part_spec (- ((-20 + 10) / 360)) 0); simpl; lra.
Qed.

(** C8.  On finite coordinates the bearing is a finite number in
    [0, 360), for any target and so for Backyard Builder. *)
Theorem bearing_range (tLat tLon lat lon : R) :
  (exists b, bearing (Fin tLat) (Fin tLon) (Fin lat) (Fin lon) = Fin b
             /\ 0 <= b < 360)
  /\ (exists b, bearingFromNorth (Fin lat) (Fin lon) = Fin b /\ 0 <= b < 360).
Proof.
  split; [apply bearing_fin|].
  unfold bearingFromNorth, bbLat, bbLon. apply bearing_fin.
Qed.

(** ** Distance *)

(** With exact arithmetic, on finite coordinates, the haversine distance of
    a point to itself is 0, the distance is the same in both directions,
    and it is a finite number that is not negative.  The last part does not
    survive rounding: see [haversine_nan_near_antipode]. *)
Theorem haversine_metric (lat1 lon1 lat2 lon2 : R) :
  haversine (Fin lat1) (Fin lon1) (Fin lat1) (Fin lon1) = Fin 0
  /\ haversine (Fin lat1) (Fin lon1) (Fin lat2) (Fin lon2)
     = haversine (Fin lat2) (Fin lon2) (Fin lat1) (Fin lon1)
  /\ exists d,
       haversine (Fin lat1) (Fin lon1) (Fin lat2) (Fin lon2) = Fin d
       /\ 0 <= d.
Proof.
  split; [|split].
  - rewrite haversine_fin, haversine_a_self, Rminus_0_r, sqrt_0, sqrt_1.
    f_equal. unfold Ratan2. destruct (Rlt_dec 0 1) as [_|N]; [|lra].
    replace (0 / 1) with 0 by field. rewrite atan_0. ring.
  - rewrite !haversine_fin, (haversine_a_sym lat1 lon1 lat2 lon2).
    reflexivity.
  - rewrite haversine_fin. eexists. split; [reflexivity|].
    pose proof (Ratan2_nonneg
                  (sqrt (haversine_a lat1 lon1 lat2 lon2))
                  (sqrt (1 - haversine_a lat1 lon1 lat2 lon2))
                  (sqrt_pos _)).
    lra.
Qed.

Section DoubleArithmetic.

Import PrimFloat.
Local Open Scope float_scope.

(** C7, on doubles.  The claim asks for a distance that is never negative;
    the handler misses it a few centimetres from the antipode of the
    target.  At the fix (-37.551446684, -52.952984) the four library calls
    of [updateDistance] have the arguments below, and a library that rounds
    to the nearest double returns the values below (the true sines and
    cosines lie within a quarter of a unit in the last place of them).
    Then [a] is the double just above 1, [1 - a] is negative, its square
    root is [NaN] and so is the distance: the line reads "NaN km". *)
Theorem haversine_nan_near_antipode
        (Math_sin Math_cos : float -> float)
        (Math_atan2 : float -> float -> float) :
  Math_sin 0x1.4f901d79fb9eep-1 = 0x1.380ceabf9ab84p-1 ->
  Math_cos (-0x1.4f901d624b8cap-1) = 0x1.95eab89c17e9fp-1 ->
  Math_cos 0x1.4f901d91abb10p-1 = 0x1.95eab87f3821dp-1 ->
  Math_sin 0x1.921fb54442d18p+0 = 1 ->
  (forall y, Math_atan2 y nan = nan) ->
  Double.a Math_sin Math_cos
    (-0x1.2c695ce10a242p+5) (-0x1.a79fb6134ce3ep+5)
  = 0x1.0000000000001p+0
  /\ sqrt (1 - 0x1.0000000000001p+0) = nan
  /\ Double.dst Math_sin Math_cos Math_atan2
       (-0x1.2c695ce10a242p+5) (-0x1.a79fb6134ce3ep+5)
     = nan.
Proof.
  intros S1 C1 C2 S2 A.
  assert (E : Double.a Math_sin Math_cos
                (-0x1.2c695ce10a242p+5) (-0x1.a79fb6134ce3ep+5)
              = 0x1.0000000000001p+0).
  { unfold Double.a. vm_compute. rewrite S1, C1, C2, S2.
    vm_compute. reflexivity. }
  split; [exact E|]. split; [reflexivity|].
  unfold Double.dst. rewrite E. vm_compute. rewrite A. reflexivity.
Qed.

Lemma haversine_nan_near_antipode_witness :
  let Math_sin := fun x => if x =? 0x1.4f901d79fb9eep-1
                           then 0x1.380ceabf9ab84p-1 else 1 in
  let Math_cos := fun x => if x =? 0x1.4f901d91abb10p-1
                           then 0x1.95eab87f3821dp-1
                           else 0x1.95eab89c17e9fp-1 in
  let Math_atan2 := fun y x : float => x in
  Double.dst Math_sin Math_cos Math_atan2
    (-0x1.2c695ce10a242p+5) (-0x1.a79fb6134ce3ep+5)
  = nan.
Proof.
  intros Math_sin Math_cos Math_atan2.
  apply (haversine_nan_near_antipode Math_sin Math_cos Math_atan2);
    reflexivity.
Defined.

End DoubleArithmetic.

(** An observer standing on the target reads 0 km. *)
Lemma distance_at_target (st : State) :
  distance (onPosition bbLat bbLon st) = "0 km"%string.
Proof.
  unfold onPosition, updateDistance. cbn [set_position _lat _lon].
  unfold bbLat, bbLon. rewrite haversine_fin, haversine_a_self.
  rewrite Rminus_0_r, sqrt_0, sqrt_1.
  replace (Ratan2 0 1) with 0.
  2:{ unfold Ratan2. destruct (Rlt_dec 0 1) as [_|N]; [|lra].
      replace (0 / 1) with 0 by field. now rewrite atan_0. }
  cbn [set_distance distance]. unfold toFixed0.
  destruct (Rlt_dec (6371 * (2 * 0)) 0) as [N|_]; [lra|].
  replace (nearest (6371 * (2 * 0))) with 0%Z; [reflexivity|].
  unfold nearest. apply Int_part_spec. simpl. lra.
Qed.

Lemma nearest_7 (x : R) : 65 / 10 <= x < 75 / 10 -> nearest x = 7%Z.
Proof.
  intros H. unfold nearest. symmetry. apply Int_part_spec. simpl. lra.
Qed.

(** C6.  A fix at (37.5, 127) makes the distance line read 7 km. *)
Theorem anchor_distance (st : State) :
  distance (onPosition (Fin (375 / 10)) (Fin 127) st) = "7 km"%string.
Proof.
  unfold onPosition, updateDistance. cbn [set_position _lat _lon].
  unfold bbLat, bbLon. rewrite haversine_fin.
  pose proof anchor_dst as D.
  cbn [set_distance distance]. unfold toFixed0.
  match goal with
  | |- context [Rlt_dec ?d 0] => destruct (Rlt_dec d 0) as [N|_]; [lra|]
  end.
  rewrite nearest_7 by lra. reflexivity.
Qed.

(** ** The handlers as state transitions *)

Lemma dispatch_all_detached (events : list DeviceOrientationEvent)
      (st : State) :
  deviceorientation st = false -> dispatch_all events st = st.
Proof.
  intros Hd. induction events as [|e events IH]; [reflexivity|].
  cbn. unfold dispatch at 2. rewrite Hd. exact IH.
Qed.

(** C4.  A sample with no truthy compass heading that is not absolute with
    a usable [alpha] clears [compassAvailable], removes the listener and
    keeps the distance line; every sample the window would deliver to that
    registration afterwards leaves the state as it is. *)
Theorem degraded_sample_detaches (e : DeviceOrientationEvent) (st : State)
        (later : list DeviceOrientationEvent) :
  truthy (webkitCompassHeading e) = false ->
  absolute e = false \/ alpha e = Null \/ alpha e = Undefined ->
  compassAvailable (updateOrientation e st) = false
  /\ deviceorientation (updateOrientation e st) = false
  /\ distance (updateOrientation e st) = distance st
  /\ dispatch_all later (updateOrientation e st) = updateOrientation e st
  /\ (deviceorientation st = true ->
      dispatch_all (e :: later) st = updateOrientation e st).
Proof.
  intros Hw Ha.
  assert (E : updateOrientation e st
              = removeEventListener (set_compassAvailable false st)).
  { apply updateOrientation_degraded.
    rewrite (_alpha_fallback e Ha), Hw. reflexivity. }
  assert (D : dispatch_all later (updateOrientation e st)
              = updateOrientation e st)
    by (apply dispatch_all_detached; rewrite E; reflexivity).
  rewrite E in *. repeat split; try exact D.
  intros Hl. cbn. unfold dispatch at 2. rewrite Hl, E. exact D.
Qed.

Lemma degraded_sample_detaches_witness :
  let e := {| webkitCompassHeading := Undefined;
              absolute := false;
              alpha := Null |} in
  let st := addEventListener (set_compassAvailable true initial) in
  compassAvailable (updateOrientation e st) = false
  /\ dispatch_all [e; e] st = updateOrientation e st.
Proof.
  intros e st.
  pose proof (degraded_sample_detaches e st [e] eq_refl (or_introl eq_refl))
    as [C [_ [_ [_ L]]]].
  split; [exact C|exact (L eq_refl)].
Defined.

(** The earlier revision reaches the same end on every sample that is not
    absolute or whose [alpha] is null; it never looks at the compass
    heading. *)
Lemma part000_degraded (e : DeviceOrientationEvent) (st : State) :
  absolute e = false \/ alpha e = Null ->
  Part000.updateOrientation e st
  = removeEventListener (set_compassAvailable false st).
Proof.
  intros H. unfold Part000.updateOrientation.
  destruct H as [H|H]; rewrite H; [reflexivity|].
  rewrite orb_true_r. reflexivity.
Qed.

Lemma part000_ignores_compass_heading (w : value) (e : DeviceOrientationEvent)
      (st : State) :
  Part000.updateOrientation
    {| webkitCompassHeading := w; absolute := absolute e; alpha := alpha e |}
    st
  = Part000.updateOrientation e st.
Proof. reflexivity. Qed.

Lemma step_before_first_fix (st : State) (i : Input) :
  is_position i = false -> before_first_fix st -> before_first_fix (step st i).
Proof.
  intros Hi (Hlat & Hlon & Hc & Hr). unfold before_first_fix.
  destruct i as [|la lo|m|p|e]; cbn in *; try discriminate; auto.
  - destruct p; cbn; auto.
  - unfold dispatch. destruct (deviceorientation st); [|auto].
    unfold updateOrientation.
    destruct (is_undefined (_alpha e)); cbn; [auto|].
    rewrite Hlat. auto.
Qed.

Lemma run_before_first_fix (inputs : list Input) (st : State) :
  forallb (fun i => negb (is_position i)) inputs = true ->
  before_first_fix st -> before_first_fix (run inputs st).
Proof.
  revert st. induction inputs as [|i inputs IH]; intros st Hall Hst.
  - exact Hst.
  - cbn in Hall. apply andb_true_iff in Hall as [Hi Hall].
    cbn. apply IH; [exact Hall|].
    apply step_before_first_fix; [|exact Hst].
    now apply negb_true_iff.
Qed.

(** C5.  Before any fix, a sample with a usable heading leaves
    [compassAvailable] false and the rotation untouched; after a fix, the
    next such sample sets [compassAvailable] and stores the rotation
    computed from the fix and the heading, a finite number when the fix and
    the heading are finite. *)
Theorem heading_before_position
        (inputs : list Input) (e1 e2 : DeviceOrientationEvent)
        (lat lon : number) :
  forallb (fun i => negb (is_position i)) inputs = true ->
  is_undefined (_alpha e1) = false ->
  is_undefined (_alpha e2) = false ->
  let s0 := run inputs initial in
  let s1 := updateOrientation e1 s0 in
  let s2 := updateOrientation e2 (onPosition lat lon s1) in
  compassAvailable s1 = false
  /\ arrowRotation s1 = arrowRotation s0
  /\ compassAvailable s2 = true
  /\ arrowRotation s2
     = relativeBearing (bearingFromNorth lat lon) (to_number (_alpha e2))
  /\ (forall la lo h,
        lat = Fin la -> lon = Fin lo -> to_number (_alpha e2) = Fin h ->
        exists r, arrowRotation s2 = Fin r).
Proof.
  intros Hall H1 H2 s0 s1 s2.
  assert (I : before_first_fix s0)
    by (apply run_before_first_fix; [exact Hall|repeat split]).
  destruct I as (Hlat & Hlon & Hc & Hr).
  assert (E1 : s1 = s0)
    by (apply updateOrientation_no_position; auto).
  assert (E2 : s2 = set_arrowRotation
                      (relativeBearing (bearingFromNorth lat lon)
                                       (to_number (_alpha e2)))
                      (set_compassAvailable true (onPosition lat lon s1)))
    by (apply updateOrientation_rotates; auto).
  rewrite E1, E2. cbn [compassAvailable arrowRotation set_arrowRotation].
  repeat split; auto.
  intros la lo h -> -> ->.
  unfold bearingFromNorth, bbLat, bbLon.
  destruct (bearing_fin (37551447 / 1000000) (127047016 / 1000000) la lo)
    as [b [-> _]].
  rewrite relativeBearing_fin. eexists. reflexivity.
Qed.

Lemma heading_before_position_witness :
  let e := {| webkitCompassHeading := Undefined;
              absolute := true;
              alpha := Number (Fin 30) |} in
  let s1 := updateOrientation e (run [Click; Tracking Granted] initial) in
  compassAvailable s1 = false
  /\ compassAvailable
       (updateOrientation e (onPosition (Fin (375 / 10)) (Fin 127) s1)) = true.
Proof.
  intros e s1.
  pose proof (heading_before_position [Click; Tracking Granted] e e
                (Fin (375 / 10)) (Fin 127) eq_refl eq_refl eq_refl)
    as [A [_ [B _]]].
  split; [exact A|exact B].
Defined.

(** C9.  A fix replaces the stored position and the distance line and
    nothing else: rotation, [compassAvailable], the name line, the
    initialized flag and the listener stay as they were. *)
Theorem position_sample_frame (lat lon : number) (st : State) :
  _lat (onPosition lat lon st) = Some lat
  /\ _lon (onPosition lat lon st) = Some lon
  /\ distance (onPosition lat lon st)
     = String.append (toFixed0 (haversine bbLat bbLon lat lon)) " km"
  /\ arrowRotation (onPosition lat lon st) = arrowRotation st
  /\ compassAvailable (onPosition lat lon st) = compassAvailable st
  /\ name (onPosition lat lon st) = name st
  /\ initialized (onPosition lat lon st) = initialized st
  /\ deviceorientation (onPosition lat lon st) = deviceorientation st.
Proof. repeat split. Qed.



(** * Further properties of the component *)

(** ** Invariants of the running component *)

Lemma updateDistance_keeps (st : State) :
  _lat (updateDistance st) = _lat st
  /\ _lon (updateDistance st) = _lon st
  /\ name (updateDistance st) = name st
  /\ compassAvailable (updateDistance st) = compassAvailable st
  /\ arrowRotation (updateDistance st) = arrowRotation st
  /\ deviceorientation (updateDistance st) = deviceorientation st
  /\ initialized (updateDistance st) = initialized st.
Proof.
  unfold updateDistance.
  destruct (_lat st) eqn:E1, (_lon st) eqn:E2; cbn; auto 10.
Qed.

Lemma position_cases (st : State) :
  has_position st \/ (_lat st = None \/ _lon st = None).
Proof.
  unfold has_position.
  destruct (_lat st) as [la|]; [|right; left; reflexivity].
  destruct (_lon st) as [lo|]; [|right; right; reflexivity].
  left. exists la, lo. split; reflexivity.
Qed.

Lemma updateOrientation_cases (e : DeviceOrientationEvent) (st : State) :
  updateOrientation e st = removeEventListener (set_compassAvailable false st)
  \/ updateOrientation e st = st
  \/ exists lat lon,
       _lat st = Some lat /\ _lon st = Some lon
       /\ updateOrientation e st
          = set_arrowRotation
              (relativeBearing (bearingFromNorth lat lon)
                               (to_number (_alpha e)))
              (set_compassAvailable true st).
Proof.
  destruct (is_undefined (_alpha e)) eqn:U.
  - left. now apply updateOrientation_degraded.
  - destruct (position_cases st) as [(la & lo & Hla & Hlo)|N].
    + right; right. exists la, lo. repeat split; auto.
      now apply updateOrientation_rotates.
    + right; left. now apply updateOrientation_no_position.
Qed.

Lemma has_position_step (st : State) (i : Input) :
  has_position st -> has_position (step st i).
Proof.
  intros (la & lo & Hla & Hlo).
  destruct i as [|la' lo'|m|p|e]; cbn.
  - exists la, lo. auto.
  - exists la', lo'. split; reflexivity.
  - exists la, lo. auto.
  - exists la, lo. destruct p; auto.
  - exists la, lo. unfold dispatch, updateOrientation.
    destruct (deviceorientation st); [|auto].
    destruct (is_undefined (_alpha e)); cbn; [auto|].
    rewrite Hla, Hlo. cbn. auto.
Qed.

Lemma consistent_step (st : State) (i : Input) :
  consistent st -> consistent (step st i).
Proof.
  intros [Hb Hc]. unfold consistent.
  destruct i as [|la lo|m|p|e]; cbn.
  - exact (conj Hb Hc).
  - split; [split; discriminate|]. intros _. exists la, lo. split; reflexivity.
  - exact (conj Hb Hc).
  - destruct p; exact (conj Hb Hc).
  - unfold dispatch. destruct (deviceorientation st); [|exact (conj Hb Hc)].
    destruct (is_undefined (_alpha e)) eqn:U.
    + rewrite (updateOrientation_degraded e st U). cbn.
      split; [exact Hb|discriminate].
    + destruct (position_cases st) as [(la & lo & Hla & Hlo)|N].
      * rewrite (updateOrientation_rotates e st la lo U Hla Hlo). cbn.
        split; [exact Hb|]. intros _. exists la, lo. auto.
      * rewrite (updateOrientation_no_position e st U N). exact (conj Hb Hc).
Qed.

Lemma consistent_run (inputs : list Input) (st : State) :
  consistent st -> consistent (run inputs st).
Proof.
  revert st. induction inputs as [|i inputs IH]; intros st H; [exact H|].
  cbn. apply IH. now apply consistent_step.
Qed.

Lemma consistent_initial : consistent initial.
Proof.
  split; [split; reflexivity|discriminate].
Qed.

(** X1.  Whatever the page and the platform do, and in whatever order, the
    arrow is visible only while a fix is stored. *)
Theorem compass_requires_position (inputs : list Input) :
  compassAvailable (run inputs initial) = true ->
  has_position (run inputs initial).
Proof.
  apply (consistent_run inputs initial consistent_initial).
Qed.

Lemma compass_requires_position_witness :
  has_position
    (run [Tracking Granted; Position (Fin 1) (Fin 2);
          Orientation {| webkitCompassHeading := Undefined;
                         absolute := true;
                         alpha := Number (Fin 30) |}] initial).
Proof.
  apply (compass_requires_position
           [Tracking Granted; Position (Fin 1) (Fin 2);
            Orientation {| webkitCompassHeading := Undefined;
                           absolute := true;
                           alpha := Number (Fin 30) |}]).
  reflexivity.
Defined.

(** X2.  The two coordinates are always both stored or both missing, and a
    stored fix is never forgotten: later inputs can replace it but not
    remove it. *)
Theorem position_persists (before after : list Input) :
  (_lat (run before initial) = None <-> _lon (run before initial) = None)
  /\ (has_position (run before initial) ->
      has_position (run after (run before initial))).
Proof.
  split; [apply (consistent_run before initial consistent_initial)|].
  generalize (run before initial).
  induction after as [|i after IH]; intros st H.
  - exact H.
  - cbn. apply IH. now apply has_position_step.
Qed.

Lemma position_persists_witness :
  has_position
    (run [PositionError "timeout"; Tracking Denied]
         (run [Position (Fin 1) (Fin 2)] initial)).
Proof.
  apply (position_persists [Position (Fin 1) (Fin 2)]
                           [PositionError "timeout"; Tracking Denied]).
  exists (Fin 1), (Fin 2). split; reflexivity.
Defined.

(** ** The rotation, end to end *)

Lemma relativeBearing_cases (b h : R) :
  exists r, relativeBearing (Fin b) (Fin h) = Fin r
            /\ ((180 < b - h /\ r = b - h - 360)
                \/ (b - h < -180 /\ r = b - h + 360)
                \/ (-180 <= b - h <= 180 /\ r = b - h)).
Proof.
  rewrite relativeBearing_fin. eexists. split; [reflexivity|].
  destruct (Rlt_dec 180 (b - h)) as [H|H]; [left; split; [lra|reflexivity]|].
  destruct (Rlt_dec (b - h) (-180)) as [H'|H'].
  - right; left. split; [lra|reflexivity].
  - right; right. split; [lra|reflexivity].
Qed.

(** X3.  The single wrap in each direction brings the rotation into
    [-180, 180] exactly when bearing and heading differ by at most 540
    degrees; a heading further off leaves the arrow turned by more than
    half a circle. *)
Theorem relativeBearing_in_range_iff (b h : R) :
  exists r,
    relativeBearing (Fin b) (Fin h) = Fin r
    /\ (-180 <= r <= 180 <-> -540 <= b - h <= 540).
Proof.
  destruct (relativeBearing_cases b h) as (r & E & C).
  exists r. split; [exact E|].
  destruct C as [[H ->]|[[H ->]|[H ->]]]; split; lra.
Qed.

(** X4.  With a fix on finite coordinates and a heading between -180 and
    540 degrees, which covers every [alpha] and compass heading in
    [0, 360], a usable sample shows the arrow and turns it by an angle in
    [-180, 180]. *)
Theorem rotation_within_half_turn
        (e : DeviceOrientationEvent) (st : State) (lat lon h : R) :
  _lat st = Some (Fin lat) -> _lon st = Some (Fin lon) ->
  _alpha e = Number (Fin h) -> -180 <= h <= 540 ->
  compassAvailable (updateOrientation e st) = true
  /\ exists r, arrowRotation (updateOrientation e st) = Fin r
               /\ -180 <= r <= 180.
Proof.
  intros Hlat Hlon Ha Hh.
  rewrite (updateOrientation_rotates e st (Fin lat) (Fin lon));
    [|rewrite Ha; reflexivity|exact Hlat|exact Hlon].
  cbn. split; [reflexivity|]. rewrite Ha. cbn.
  unfold bearingFromNorth, bbLat, bbLon.
  destruct (bearing_fin (37551447 / 1000000) (127047016 / 1000000) lat lon)
    as (b & -> & Hb).
  destruct (relativeBearing_cases b h) as (r & -> & C).
  exists r. split; [reflexivity|].
  destruct C as [[H ->]|[[H ->]|[H ->]]]; lra.
Qed.

Lemma rotation_within_half_turn_witness :
  let e := {| webkitCompassHeading := Undefined;
              absolute := true;
              alpha := Number (Fin 350) |} in
  let st := onPosition (Fin (375 / 10)) (Fin 127) initial in
  compassAvailable (updateOrientation e st) = true
  /\ exists r, arrowRotation (updateOrientation e st) = Fin r
               /\ -180 <= r <= 180.
Proof.
  intros e st.
  apply (rotation_within_half_turn e st (375 / 10) 127 350);
    [reflexivity|reflexivity|reflexivity|lra].
Defined.

(** X5.  A [NaN] heading is neither null nor undefined, so the sample is
    not degraded: with a fix stored the arrow is shown and its rotation is
    [NaN]; both wrap tests fail on it. *)
Theorem nan_heading_shows_arrow
        (e : DeviceOrientationEvent) (st : State) (lat lon : number) :
  _lat st = Some lat -> _lon st = Some lon ->
  absolute e = true -> alpha e = Number NaN ->
  compassAvailable (updateOrientation e st) = true
  /\ arrowRotation (updateOrientation e st) = NaN
  /\ deviceorientation (updateOrientation e st) = deviceorientation st.
Proof.
  intros Hlat Hlon Ha Hn.
  assert (E : _alpha e = Number NaN) by now apply _alpha_absolute.
  rewrite (updateOrientation_rotates e st lat lon);
    [|rewrite E; reflexivity|exact Hlat|exact Hlon].
  rewrite E. cbn. repeat split.
  unfold relativeBearing, sub, lift2.
  destruct (bearingFromNorth lat lon); reflexivity.
Qed.

Lemma nan_heading_shows_arrow_witness :
  let e := {| webkitCompassHeading := Undefined;
              absolute := true;
              alpha := Number NaN |} in
  let st := onPosition (Fin 1) (Fin 2) initial in
  compassAvailable (updateOrientation e st) = true
  /\ arrowRotation (updateOrientation e st) = NaN
  /\ deviceorientation (updateOrientation e st) = deviceorientation st.
Proof.
  intros e st.
  apply (nan_heading_shows_arrow e st (Fin 1) (Fin 2));
    reflexivity.
Defined.

(** X6.  An orientation sample, whichever branch it takes, never touches
    the stored fix, the two text lines or the initialized flag. *)
Theorem orientation_sample_frame (e : DeviceOrientationEvent) (st : State) :
  _lat (updateOrientation e st) = _lat st
  /\ _lon (updateOrientation e st) = _lon st
  /\ name (updateOrientation e st) = name st
  /\ distance (updateOrientation e st) = distance st
  /\ initialized (updateOrientation e st) = initialized st.
Proof.
  destruct (updateOrientation_cases e st)
    as [-> | [-> | (la & lo & _ & _ & ->)]]; repeat split.
Qed.

(** X7.  The last fix wins: a fix overwrites everything an earlier fix
    wrote, so delivering the same fix twice changes nothing. *)
Theorem position_last_write_wins (lat1 lon1 lat2 lon2 : number) (st : State) :
  onPosition lat2 lon2 (onPosition lat1 lon1 st) = onPosition lat2 lon2 st
  /\ onPosition lat1 lon1 (onPosition lat1 lon1 st) = onPosition lat1 lon1 st.
Proof.
  split; reflexivity.
Qed.

(** ** Geometry *)

Lemma Ratan2_quadrant (y x : R) : 0 <= y -> 0 <= x -> Ratan2 y x <= PI / 2.
Proof.
  intros Hy Hx. pose proof PI_RGT_0 as Hpi.
  pose proof (atan_bound (y / x)) as [L U].
  unfold Ratan2.
  destruct (Rlt_dec 0 x); [lra|].
  destruct (Rlt_dec x 0); [lra|].
  destruct (Rlt_dec 0 y); [lra|]. destruct (Rlt_dec y 0); lra.
Qed.

Lemma haversine_bounds (tLat tLon lat lon : R) :
  exists d,
    haversine (Fin tLat) (Fin tLon) (Fin lat) (Fin lon) = Fin d
    /\ 0 <= d <= 6371 * PI.
Proof.
  rewrite haversine_fin. eexists. split; [reflexivity|].
  set (a := haversine_a tLat tLon lat lon).
  pose proof (Ratan2_nonneg (sqrt a) (sqrt (1 - a)) (sqrt_pos _)).
  pose proof (Ratan2_quadrant (sqrt a) (sqrt (1 - a))
                (sqrt_pos _) (sqrt_pos _)).
  lra.
Qed.

(** X8.  On finite coordinates the distance is at most half the
    circumference of the sphere of radius 6371 km, and it reaches that
    bound at the antipode of the target. *)
Theorem haversine_at_most_half_circumference (tLat tLon lat lon : R) :
  (exists d,
     haversine (Fin tLat) (Fin tLon) (Fin lat) (Fin lon) = Fin d
     /\ d <= 6371 * PI)
  /\ haversine (Fin tLat) (Fin tLon) (Fin (- tLat)) (Fin (tLon + 180))
     = Fin (6371 * PI).
Proof.
  split.
  - destruct (haversine_bounds tLat tLon lat lon) as (d & E & _ & D).
    exists d. split; [exact E|exact D].
  - rewrite haversine_fin.
    assert (A : haversine_a tLat tLon (- tLat) (tLon + 180) = 1).
    { unfold haversine_a.
      replace ((tLat - - tLat) * PI / 180 / 2) with (tLat * PI / 180)
        by field.
      replace ((tLon - (tLon + 180)) * PI / 180 / 2) with (- (PI / 2))
        by field.
      replace (- tLat * PI / 180) with (- (tLat * PI / 180)) by field.
      rewrite cos_neg, sin_neg, sin_PI2.
      pose proof (sin2_cos2 (tLat * PI / 180)) as S. unfold Rsqr in S.
      lra. }
    rewrite A, Rminus_diag, sqrt_0, sqrt_1. f_equal.
    unfold Ratan2.
    destruct (Rlt_dec 0 0) as [F|_]; [lra|].
    destruct (Rlt_dec 0 0) as [F|_]; [lra|].
    destruct (Rlt_dec 0 1) as [_|F]; [|lra].
    field.
Qed.



(** X10.  Distance and bearing do not depend on which of the equivalent
    longitudes the platform reports: a full turn more gives the same
    distance and the same bearing. *)
Theorem longitude_full_turn (tLat tLon lat lon : R) :
  haversine (Fin tLat) (Fin tLon) (Fin lat) (Fin (lon + 360))
  = haversine (Fin tLat) (Fin tLon) (Fin lat) (Fin lon)
  /\ bearing (Fin tLat) (Fin tLon) (Fin lat) (Fin (lon + 360))
     = bearing (Fin tLat) (Fin tLon) (Fin lat) (Fin lon).
Proof.
  split.
  - rewrite !haversine_fin. unfold haversine_a.
    replace ((tLon - (lon + 360)) * PI / 180 / 2)
      with ((tLon - lon) * PI / 180 / 2 - PI) by field.
    replace (sin ((tLon - lon) * PI / 180 / 2 - PI))
      with (- sin ((tLon - lon) * PI / 180 / 2)).
    2:{ rewrite sin_minus, cos_PI, sin_PI. ring. }
    set (s := sin ((tLon - lon) * PI / 180 / 2)).
    replace (cos (lat * PI / 180) * cos (tLat * PI / 180) * - s * - s)
      with (cos (lat * PI / 180) * cos (tLat * PI / 180) * s * s) by ring.
    reflexivity.
  - unfold bearing. js_fin.
    replace ((tLon - (lon + 360)) * PI / 180)
      with ((tLon - lon) * PI / 180 - 2 * PI) by field.
    replace (sin ((tLon - lon) * PI / 180 - 2 * PI))
      with (sin ((tLon - lon) * PI / 180)).
    2:{ rewrite sin_minus, cos_2PI, sin_2PI. ring. }
    replace (cos ((tLon - lon) * PI / 180 - 2 * PI))
      with (cos ((tLon - lon) * PI / 180)).
    2:{ rewrite cos_minus, cos_2PI, sin_2PI. ring. }
    reflexivity.
Qed.

Lemma trunc_one_and_a_bit (q : R) : 1 <= q < 2 -> trunc q = 1.
Proof.
  intros H. unfold trunc. destruct (Rle_dec 0 q) as [_|N]; [|lra].
  rewrite <- (Int_part_spec q 1); [reflexivity|simpl; lra].
Qed.

(** X11.  On one meridian the bearing is what a map shows: 0 for a target
    to the north of the observer, 180 for a target to the south. *)
Theorem bearing_along_meridian (tLat lat lon : R) :
  (0 < tLat - lat < 180 ->
   bearing (Fin tLat) (Fin lon) (Fin lat) (Fin lon) = Fin 0)
  /\ (0 < lat - tLat < 180 ->
      bearing (Fin tLat) (Fin lon) (Fin lat) (Fin lon) = Fin 180).
Proof.
  pose proof PI_RGT_0 as Hpi.
  assert (X : cos (lat * PI / 180) * sin (tLat * PI / 180)
              - sin (lat * PI / 180) * cos (tLat * PI / 180)
                * cos ((lon - lon) * PI / 180)
              = sin ((tLat - lat) * PI / 180)).
  { replace ((lon - lon) * PI / 180) with 0 by field. rewrite cos_0.
    replace ((tLat - lat) * PI / 180)
      with (tLat * PI / 180 - lat * PI / 180) by field.
    rewrite sin_minus. ring. }
  assert (Y : sin ((lon - lon) * PI / 180) * cos (tLat * PI / 180) = 0).
  { replace ((lon - lon) * PI / 180) with 0 by field. rewrite sin_0. ring. }
  split; intros H; unfold bearing; js_fin; rewrite Y, X, rem_fin by lra;
    f_equal; unfold Ratan2;
    set (s := sin ((tLat - lat) * PI / 180)).
  - assert (S : 0 < s).
    { apply sin_gt_0.
      - apply Rmult_lt_reg_r with (180 / PI);
          [apply Rdiv_lt_0_compat; lra|].
        replace ((tLat - lat) * PI / 180 * (180 / PI)) with (tLat - lat)
          by (field; lra).
        lra.
      - apply Rmult_lt_reg_r with (180 / PI);
          [apply Rdiv_lt_0_compat; lra|].
        replace ((tLat - lat) * PI / 180 * (180 / PI)) with (tLat - lat)
          by (field; lra).
        replace (PI * (180 / PI)) with 180 by (field; lra).
        lra. }
    destruct (Rlt_dec 0 s) as [_|N]; [|lra].
    replace (0 / s) with 0 by (field; lra). rewrite atan_0.
    replace (0 * 180 / PI + 360) with 360 by (field; lra).
    rewrite trunc_one_and_a_bit; lra.
  - assert (S : s < 0).
    { unfold s.
      replace ((tLat - lat) * PI / 180) with (- ((lat - tLat) * PI / 180))
        by field.
      rewrite sin_neg.
      assert (0 < sin ((lat - tLat) * PI / 180)); [|lra].
      apply sin_gt_0.
      - apply Rmult_lt_reg_r with (180 / PI);
          [apply Rdiv_lt_0_compat; lra|].
        replace ((lat - tLat) * PI / 180 * (180 / PI)) with (lat - tLat)
          by (field; lra).
        lra.
      - apply Rmult_lt_reg_r with (180 / PI);
          [apply Rdiv_lt_0_compat; lra|].
        replace ((lat - tLat) * PI / 180 * (180 / PI)) with (lat - tLat)
          by (field; lra).
        replace (PI * (180 / PI)) with 180 by (field; lra).
        lra. }
    destruct (Rlt_dec 0 s) as [P|_]; [lra|].
    destruct (Rlt_dec s 0) as [_|N]; [|lra].
    destruct (Rle_dec 0 0) as [_|N]; [|lra].
    replace (0 / s) with 0 by (field; lra). rewrite atan_0.
    replace ((0 + PI) * 180 / PI + 360) with 540 by (field; lra).
    rewrite trunc_one_and_a_bit; lra.
Qed.

Lemma bearing_along_meridian_witness :
  bearing (Fin 38) (Fin 127) (Fin 37) (Fin 127) = Fin 0
  /\ bearing (Fin 37) (Fin 127) (Fin 38) (Fin 127) = Fin 180.
Proof.
  split.
  - apply (proj1 (bearing_along_meridian 38 37 127)). lra.
  - apply (proj2 (bearing_along_meridian 37 38 127)). lra.
Defined.

(** ** Failure reporting *)

(** X12.  [fail] replaces the two text lines and nothing else.  A missing
    message and an empty one give the same bare hint; any other message is
    put in front of the hint. *)
Theorem fail_report (msg : option string) (st : State) :
  name (fail msg st) = "Could not get your current location"%string
  /\ (msg = None \/ msg = Some ""%string ->
      distance (fail msg st)
      = "Try adding this app to your homescreen."%string)
  /\ (forall m, msg = Some m -> m <> ""%string ->
      distance (fail msg st)
      = String.append m ". Try adding this app to your homescreen.")
  /\ _lat (fail msg st) = _lat st
  /\ _lon (fail msg st) = _lon st
  /\ compassAvailable (fail msg st) = compassAvailable st
  /\ arrowRotation (fail msg st) = arrowRotation st
  /\ deviceorientation (fail msg st) = deviceorientation st
  /\ initialized (fail msg st) = initialized st.
Proof.
  split; [reflexivity|]. split; [|split; [|repeat split]].
  - intros [->| ->]; reflexivity.
  - intros m -> Hm. unfold fail. cbn.
    destruct (String.eqb m "") eqn:E; [|reflexivity].
    apply String.eqb_eq in E. contradiction.
Qed.

Lemma fail_report_witness :
  distance (fail (Some "denied"%string) initial)
  = "denied. Try adding this app to your homescreen."%string
  /\ distance (fail (Some ""%string) initial)
     = "Try adding this app to your homescreen."%string.
Proof.
  split.
  - apply (proj1 (proj2 (proj2 (fail_report (Some "denied"%string) initial)))
             "denied"%string eq_refl).
    discriminate.
  - apply (proj1 (proj2 (fail_report (Some ""%string) initial))).
    right. reflexivity.
Defined.

Lemma name_step (st : State) (i : Input) :
  name st = "Could not get your current location"%string ->
  name (step st i) = "Could not get your current location"%string.
Proof.
  intros H. destruct i as [|la lo|m|p|e]; cbn [step].
  - exact H.
  - unfold onPosition.
    rewrite (proj1 (proj2 (proj2 (updateDistance_keeps _)))). exact H.
  - reflexivity.
  - destruct p; exact H.
  - unfold dispatch. destruct (deviceorientation st); [|exact H].
    destruct (updateOrientation_cases e st)
      as [-> | [-> | (la & lo & _ & _ & ->)]]; exact H.
Qed.

(** X13.  Nothing restores the name line: once a position error has been
    reported it reads "Could not get your current location" for good,
    also while later fixes update the distance line again. *)
Theorem name_stays_on_error
        (before after : list Input) (message : string) :
  name (run (before ++ PositionError message :: after) initial)
  = "Could not get your current location"%string.
Proof.
  unfold run. rewrite fold_left_app. cbn [fold_left step].
  generalize (fold_left step before initial). intros st.
  assert (H : name (onPositionError message st)
              = "Could not get your current location"%string)
    by reflexivity.
  revert H. generalize (onPositionError message st).
  induction after as [|i after IH]; intros s H; [exact H|].
  cbn. apply IH. now apply name_step.
Qed.

(** ** Permission and start-up *)

Lemma hidden_step (st : State) (i : Input) :
  grants i = false ->
  deviceorientation st = false /\ compassAvailable st = false
  /\ arrowRotation st = Fin 0 ->
  deviceorientation (step st i) = false
  /\ compassAvailable (step st i) = false
  /\ arrowRotation (step st i) = Fin 0.
Proof.
  intros Hg (Hd & Hc & Hr).
  destruct i as [|la lo|m|p|e]; cbn [step].
  - auto.
  - unfold onPosition.
    destruct (updateDistance_keeps (set_position la lo st))
      as (_ & _ & _ & -> & -> & -> & _). auto.
  - auto.
  - destruct p; cbn in *; try discriminate; auto.
  - unfold dispatch. rewrite Hd. auto.
Qed.

(** X14.  Without a granted (or unneeded) permission the listener is never
    registered: whatever fixes, errors and orientation events arrive, the
    arrow stays hidden and its rotation stays 0. *)
Theorem no_permission_no_arrow (inputs : list Input) :
  forallb (fun i => negb (grants i)) inputs = true ->
  deviceorientation (run inputs initial) = false
  /\ compassAvailable (run inputs initial) = false
  /\ arrowRotation (run inputs initial) = Fin 0.
Proof.
  assert (I : deviceorientation initial = false
              /\ compassAvailable initial = false
              /\ arrowRotation initial = Fin 0) by (repeat split).
  revert I. generalize initial.
  induction inputs as [|i inputs IH]; intros st I Hall; [exact I|].
  cbn in Hall. apply andb_true_iff in Hall as [Hi Hall].
  cbn. apply IH; [|exact Hall].
  apply hidden_step; [now apply negb_true_iff|exact I].
Qed.

Lemma no_permission_no_arrow_witness :
  compassAvailable
    (run [Click; Tracking Denied; Position (Fin 1) (Fin 2);
          Orientation {| webkitCompassHeading := Number (Fin 90);
                         absolute := true;
                         alpha := Number (Fin 30) |}] initial) = false.
Proof.
  apply (no_permission_no_arrow
           [Click; Tracking Denied; Position (Fin 1) (Fin 2);
            Orientation {| webkitCompassHeading := Number (Fin 90);
                           absolute := true;
                           alpha := Number (Fin 30) |}]).
  reflexivity.
Defined.

Lemma guarded_step (st : State) (i : Input) :
  is_sensor i = true ->
  (deviceorientation st = true -> has_position st) ->
  deviceorientation (step st i) = true -> has_position (step st i).
Proof.
  intros Hs G.
  destruct i as [|la lo|m|p|e]; try discriminate; cbn [step].
  - intros _. exists la, lo. split; reflexivity.
  - exact G.
  - destruct (deviceorientation st) eqn:D.
    + intros _. apply (has_position_step st (Orientation e)).
      apply G. reflexivity.
    + unfold dispatch. rewrite D. intros L. rewrite D in L. discriminate.
Qed.

(** X15.  [init] starts orientation tracking only after the first fix: if
    geolocation is missing, fails or never answers, the listener is not
    registered whatever the permission; and in the session that follows
    [init], the handler never runs without a stored fix. *)
Theorem tracking_waits_for_first_fix
        (g : FirstFix) (p : Permission) (inputs : list Input) :
  initialized (init_with g p initial) = true
  /\ ((forall la lo, g <> Fix la lo) ->
      deviceorientation (init_with g p initial) = false)
  /\ (forallb is_sensor inputs = true ->
      deviceorientation (run inputs (init_with g p initial)) = true ->
      has_position (run inputs (init_with g p initial))).
Proof.
  split; [destruct g, p; reflexivity|]. split.
  - intros H. destruct g as [|la lo|m|]; try reflexivity.
    now elim (H la lo).
  - assert (G : deviceorientation (init_with g p initial) = true ->
                has_position (init_with g p initial)).
    { destruct g as [|la lo|m|]; try (destruct p; discriminate).
      intros _. exists la, lo. destruct p; split; reflexivity. }
    revert G. generalize (init_with g p initial).
    induction inputs as [|i inputs IH]; intros st G Hall; [exact G|].
    cbn in Hall. apply andb_true_iff in Hall as [Hi Hall].
    cbn. apply IH; [|exact Hall].
    now apply guarded_step.
Qed.

Lemma tracking_waits_for_first_fix_witness :
  deviceorientation (init_with (FixError "denied") Granted initial) = false.
Proof.
  apply (proj1 (proj2 (tracking_waits_for_first_fix
                         (FixError "denied") Granted []))).
  discriminate.
Defined.

(** X16.  The earlier revision starts both acquisitions together: with a
    permission it registers the listener whether or not geolocation
    exists, so there the handler can run before any fix and then takes the
    no-position guard. *)
Theorem part000_tracking_starts_at_once
        (supported : bool) (p : Permission) (e : DeviceOrientationEvent) :
  p = NotRequired \/ p = Granted ->
  absolute e = true -> alpha e <> Null ->
  deviceorientation (Part000.init supported p initial) = true
  /\ Part000.updateOrientation e (Part000.init supported p initial)
     = Part000.init supported p initial.
Proof.
  intros Hp Ha Hn.
  assert (N : is_null (alpha e) = false) by (destruct (alpha e); easy).
  split.
  - destruct Hp as [-> | ->], supported; reflexivity.
  - unfold Part000.updateOrientation. rewrite Ha, N.
    destruct Hp as [-> | ->], supported; reflexivity.
Qed.

Lemma part000_tracking_starts_at_once_witness :
  deviceorientation (Part000.init false NotRequired initial) = true.
Proof.
  apply (part000_tracking_starts_at_once false NotRequired
           {| webkitCompassHeading := Undefined;
              absolute := true;
              alpha := Number (Fin 30) |});
    [left; reflexivity|reflexivity|discriminate].
Defined.

(** ** The two revisions of the handler *)

(** X17.  On a sample without a truthy compass heading whose [alpha] is
    not undefined, the current handler does what the earlier one did. *)
Theorem revisions_agree_without_compass_heading
        (e : DeviceOrientationEvent) (st : State) :
  truthy (webkitCompassHeading e) = false ->
  alpha e <> Undefined ->
  updateOrientation e st = Part000.updateOrientation e st.
Proof.
  intros Hw Hu. unfold updateOrientation, Part000.updateOrientation, _alpha.
  rewrite Hw.
  destruct (absolute e); cbn; [|reflexivity].
  destruct (alpha e) as [| |n]; [contradiction|reflexivity|reflexivity].
Qed.

Lemma revisions_agree_without_compass_heading_witness :
  let e := {| webkitCompassHeading := Undefined;
              absolute := true;
              alpha := Number (Fin 30) |} in
  updateOrientation e initial = Part000.updateOrientation e initial.
Proof.
  intros e.
  apply (revisions_agree_without_compass_heading e initial);
    [reflexivity|discriminate].
Defined.

(** X18.  What the current revision adds: a sample that is not absolute but
    carries a truthy compass heading ended tracking in the earlier revision;
    now, with a fix stored, it shows the arrow and keeps the listener. *)
Theorem compass_heading_rescues_sample
        (e : DeviceOrientationEvent) (st : State) (lat lon : number) :
  absolute e = false -> truthy (webkitCompassHeading e) = true ->
  _lat st = Some lat -> _lon st = Some lon ->
  (compassAvailable (Part000.updateOrientation e st) = false
   /\ deviceorientation (Part000.updateOrientation e st) = false)
  /\ (compassAvailable (updateOrientation e st) = true
      /\ deviceorientation (updateOrientation e st) = deviceorientation st
      /\ arrowRotation (updateOrientation e st)
         = relativeBearing (bearingFromNorth lat lon)
                           (to_number (webkitCompassHeading e))).
Proof.
  intros Ha Hw Hlat Hlon. split.
  - rewrite part000_degraded by (left; exact Ha). split; reflexivity.
  - assert (E : _alpha e = webkitCompassHeading e).
    { rewrite _alpha_fallback by (left; exact Ha). rewrite Hw. reflexivity. }
    assert (U : is_undefined (_alpha e) = false).
    { rewrite E. destruct (webkitCompassHeading e); easy. }
    rewrite (updateOrientation_rotates e st lat lon U Hlat Hlon), E.
    repeat split.
Qed.

Lemma compass_heading_rescues_sample_witness :
  let e := {| webkitCompassHeading := Number (Fin 90);
              absolute := false;
              alpha := Null |} in
  let st := addEventListener (onPosition (Fin 1) (Fin 2) initial) in
  compassAvailable (Part000.updateOrientation e st) = false
  /\ compassAvailable (updateOrientation e st) = true.
Proof.
  intros e st.
  assert (T : truthy (webkitCompassHeading e) = true)
    by (apply truthy_number; lra).
  destruct (compass_heading_rescues_sample e st (Fin 1) (Fin 2)
              eq_refl T eq_refl eq_refl) as [[A _] [B _]].
  split; [exact A|exact B].
Defined.
